(** * Prop-shape algebra of the component declarations

    A shallow embedding of [packages/components/index.d.ts]: the type-level
    operators [Omit] and [Assign], the own-props interfaces, and the props
    shape of every exported component, followed by the properties of the
    composition algebra.

    Object types are finite maps from field names to field declarations
    (an optional flag and a declared type).  The typings the file imports
    ([react], [styled-system]) are not part of the package; they are a
    parameter ([Typings]) of every definition that mentions them, together
    with the one fact the declarations rely on: every attribute and every
    prop the imports declare is optional. *)

From stdpp Require Import gmap strings list fin_maps.

Local Open Scope string_scope.
#[local] Set Warnings "-clear-no-such-hyp".

(** ** Types and object shapes *)

(** [TRef n args] is a named type the file imports and never inspects
    ([React.ElementType], [Interpolation<any>], ...).  [TElement e] is an
    element/component type used as a type, as in [as?: T]. *)
#[local] Unset Elimination Schemes.
Inductive ty :=
| TString
| TNumber
| TBoolean
| TAny
| TNever
| TLit (s : string)
| TUnion (a b : ty)
| TInter (a b : ty)
| TRef (name : string) (args : list ty)
| TElement (e : ElementType)
with ElementType :=
| Intrinsic (tag : string)
| ComponentType (P : gmap string field)
with field :=
| mk_field (optional : bool) (fty : ty).
#[local] Set Elimination Schemes.

Definition optional (f : field) : bool := let 'mk_field o _ := f in o.
Definition fty (f : field) : ty := let 'mk_field _ t := f in t.

Abbreviation shape := (gmap string field).

(** [name: t] and [name?: t] *)
Definition req (t : ty) : field := mk_field false t.
Definition opt (t : ty) : field := mk_field true t.

(** ** Type operators *)

(** [keyof T] *)
Definition keyof (T : shape) : gset string := dom T.

(** [T[P]].  Indexing outside [keyof T] is rejected by the compiler (the
    error type behaves like [any]); every use below is guarded. *)
Definition index (T : shape) (P : string) : ty :=
  match T !! P with Some f => fty f | None => TAny end.

Definition all_optional (S : shape) : Prop :=
  map_Forall (λ _ f, optional f = true) S.

#[global] Instance all_optional_dec S : Decision (all_optional S).
Proof. unfold all_optional. apply _. Defined.

(** *** Which intersections of types are empty

    The compiler reduces an intersection of primitive types of different
    kinds, or of different literals, to [never]; an object type intersects
    with every other type.  The extent of a type lists its alternatives: a
    primitive part and whether an object type is intersected in.  An imported
    named type ([TRef]) and a component type count as object types. *)
Inductive prim := PString | PLit (s : string) | PNumber | PBoolean | PUndefined.

Record atom := { atom_prim : option prim; atom_object : bool }.

Inductive extent := EAny | EAtoms (alternatives : list atom).

Definition prim_atom (p : prim) : atom :=
  {| atom_prim := Some p; atom_object := false |}.
Definition object_atom : atom :=
  {| atom_prim := None; atom_object := true |}.

Definition meet_prim (p q : prim) : option prim :=
  match p, q with
  | PString, PString => Some PString
  | PString, PLit s => Some (PLit s)
  | PLit s, PString => Some (PLit s)
  | PLit s, PLit s' => if decide (s = s') then Some (PLit s) else None
  | PNumber, PNumber => Some PNumber
  | PBoolean, PBoolean => Some PBoolean
  | PUndefined, PUndefined => Some PUndefined
  | _, _ => None
  end.

Definition meet_atom (a b : atom) : option atom :=
  match atom_prim a, atom_prim b with
  | Some p, Some q =>
      (λ r, {| atom_prim := Some r;
               atom_object := atom_object a || atom_object b |})
        <$> meet_prim p q
  | Some p, None => Some {| atom_prim := Some p; atom_object := true |}
  | None, Some q => Some {| atom_prim := Some q; atom_object := true |}
  | None, None => Some object_atom
  end.

Definition is_empty (e : extent) : bool :=
  match e with EAtoms [] => true | _ => false end.

(** [any | T] is [any] *)
Definition join (d e : extent) : extent :=
  match d, e with
  | EAtoms l, EAtoms k => EAtoms (l ++ k)
  | _, _ => EAny
  end.

(** [any & T] is [any], except that [any & never] is [never] *)
Definition meet (d e : extent) : extent :=
  match d, e with
  | EAtoms l, EAtoms k => EAtoms (a ← l; omap (meet_atom a) k)
  | EAny, EAny => EAny
  | EAny, EAtoms k => if is_empty (EAtoms k) then EAtoms [] else EAny
  | EAtoms l, EAny => if is_empty (EAtoms l) then EAtoms [] else EAny
  end.

Fixpoint meets (es : list extent) : extent :=
  match es with
  | [] => EAny
  | [e] => e
  | e :: es' => meet e (meets es')
  end.

Fixpoint extent_of (t : ty) : extent :=
  match t with
  | TString => EAtoms [prim_atom PString]
  | TNumber => EAtoms [prim_atom PNumber]
  | TBoolean => EAtoms [prim_atom PBoolean]
  | TAny => EAny
  | TNever => EAtoms []
  | TLit s => EAtoms [prim_atom (PLit s)]
  | TUnion a b => join (extent_of a) (extent_of b)
  | TInter a b => meet (extent_of a) (extent_of b)
  | TRef _ _ => EAtoms [object_atom]
  | TElement (Intrinsic tag) => EAtoms [prim_atom (PLit tag)]
  | TElement (ComponentType _) => EAtoms [object_atom]
  end.

(** A literal type: a unit type ([boolean] is [true | false]) or a union of
    unit types. *)
Definition is_unit_atom (a : atom) : bool :=
  negb (atom_object a) &&
  match atom_prim a with
  | Some (PLit _) | Some PBoolean | Some PUndefined => true
  | _ => false
  end.

Definition is_literal (e : extent) : bool :=
  match e with
  | EAny => false
  | EAtoms l => negb (is_empty e) && forallb is_unit_atom l
  end.

(** The type of a property as the checker reads it under
    [strictNullChecks]: an optional property also admits [undefined]. *)
Definition property_extent (f : field) : extent :=
  if optional f then join (extent_of (fty f)) (EAtoms [prim_atom PUndefined])
  else extent_of (fty f).

(** The declarations of one property name in the constituents of an
    intersection reduce the whole intersection to [never] when the property
    is not optional in all of them, at least one of the types is a literal
    type, none of them is [never], and their intersection is [never] (a
    discriminant property of conflicting types). *)
Definition never_property (fs : list field) : bool :=
  negb (forallb optional fs) &&
  existsb (λ f, is_literal (property_extent f)) fs &&
  forallb (λ f, negb (is_empty (property_extent f))) fs &&
  is_empty (meets (property_extent <$> fs)).

(** An object type: [never], or the object type with the given members. *)
Inductive objty := Never | Object (members : shape).

(** [never] has no properties. *)
Definition properties (O : objty) : shape :=
  match O with Never => ∅ | Object m => m end.

(** The members of [T1 & ... & Tn] when the intersection is not reduced: a
    property of several constituents gets the intersection of their types
    and is optional only when it is optional in all of them. *)
Definition merge (t u : field) : field :=
  mk_field (optional t && optional u) (TInter (fty t) (fty u)).

Definition intersection_members (Ts : list shape) : shape :=
  foldr (λ T acc, union_with (λ t u, Some (merge t u)) T acc) ∅ Ts.

Definition never_reduced (Ts : list shape) : bool :=
  existsb (λ P, never_property (omap (λ T : shape, T !! P) Ts))
    (elements (⋃ (dom <$> Ts) : gset string)).

(** [T1 & ... & Tn] on object types *)
Definition intersection (Ts : list shape) : objty :=
  if never_reduced Ts then Never else Object (intersection_members Ts).

(** [T & U] *)
Definition intersect (T U : shape) : objty := intersection [T; U].

(** [{ [P in keyof M]: template P }]: a mapped type over [keyof M] keeps the
    optional modifier each property has in [M], and has no member when [M]
    is [never]. *)
Definition mapped (M : objty) (template : string → ty) : shape :=
  map_imap (λ P m, Some (mk_field (optional m) (template P))) (properties M).

(** [Exclude<K, X>] on unions of property names *)
Definition Exclude (K X : gset string) : gset string := K ∖ X.

(** [Pick<T, K>] *)
Definition Pick (T : shape) (K : gset string) : shape :=
  filter (λ kv, kv.1 ∈ K) T.

(** [type Omit<T, K> = Pick<T, Exclude<keyof T, K>>] *)
Definition Omit (T : shape) (K : gset string) : shape :=
  Pick T (Exclude (keyof T) K).

(** The conditional of [Assign], branch by branch. *)
Inductive Assign_case := from_T | from_U | from_never.

Definition Assign_select (T U : shape) (P : string) : Assign_case :=
  if decide (P ∈ keyof T) then from_T
  else if decide (P ∈ keyof U) then from_U
  else from_never.

Definition Assign_field (T U : shape) (P : string) : ty :=
  match Assign_select T U P with
  | from_T => index T P
  | from_U => index U P
  | from_never => TNever
  end.

(** [type Assign<T, U> = { [P in keyof (T & U)]:
      P extends keyof T ? T[P] : P extends keyof U ? U[P] : never }] *)
Definition Assign (T U : shape) : shape :=
  mapped (intersect T U) (Assign_field T U).

(** [interface X extends B1, B2 { body }]: the members of the body override
    the inherited ones.  Two bases may share a member only if they declare
    it identically, so the order of the bases is immaterial. *)
Definition interface_extends (bases : list shape) (body : shape) : shape :=
  body ∪ foldr (∪) ∅ bases.

(** ** Imported typings *)

Record Typings := {
  (** [React.ComponentPropsWithRef<'tag'>] *)
  IntrinsicPropsWithRef : string → shape;
  (** [React.ComponentProps<'tag'>] *)
  IntrinsicProps : string → shape;
  (** [React.IframeHTMLAttributes<any>] *)
  IframeHTMLAttributes : shape;
  (** [styled-system] *)
  SpaceProps : shape;
  ColorProps : shape;
  MarginProps : shape;
  (** Every attribute of a host element and every prop of a [styled-system]
      group is optional. *)
  IntrinsicPropsWithRef_optional :
    ∀ tag, all_optional (IntrinsicPropsWithRef tag);
  IntrinsicProps_optional : ∀ tag, all_optional (IntrinsicProps tag);
  SpaceProps_optional : all_optional SpaceProps;
  ColorProps_optional : all_optional ColorProps;
  MarginProps_optional : all_optional MarginProps
}.

(** [React.ComponentPropsWithRef<T>]: the attribute table of an intrinsic
    tag, the declared props of a component type. *)
Definition ComponentPropsWithRef (E : Typings) (T : ElementType) : shape :=
  match T with
  | Intrinsic tag => IntrinsicPropsWithRef E tag
  | ComponentType P => P
  end.

(** ** The declarations of [index.d.ts] *)

Section declarations.
Context (E : Typings).

Definition BoxOwnProps : shape :=
  interface_extends [SpaceProps E; ColorProps E]
    (list_to_map
       [("as", opt (TRef "React.ElementType" []));
        ("variant", opt TString);
        ("css", opt (TRef "Interpolation" [TAny]));
        ("sx", opt (TRef "ThemeUIStyleObject" []))]).

Definition BoxProps : shape :=
  interface_extends
    [Assign (ComponentPropsWithRef E (Intrinsic "div")) BoxOwnProps] ∅.

Definition FlexOwnProps : shape := BoxOwnProps.
Definition FlexProps : shape := BoxProps.

Definition GridProps : shape :=
  interface_extends [BoxProps]
    (list_to_map
       [("width", opt (TRef "ResponsiveStyleValue" [TUnion TString TNumber]));
        ("columns", opt (TRef "ResponsiveStyleValue" [TUnion TString TNumber]));
        ("gap", opt (TRef "ResponsiveStyleValue" [TUnion TString TNumber]));
        ("repeat", opt (TUnion (TLit "fit") (TLit "fill")))]).

Definition ButtonProps : shape :=
  interface_extends
    [Assign (ComponentPropsWithRef E (Intrinsic "button")) BoxOwnProps] ∅.

Definition LinkProps : shape :=
  interface_extends
    [Assign (ComponentPropsWithRef E (Intrinsic "a")) BoxOwnProps] ∅.

Definition TextProps : shape := BoxProps.

Definition ParagraphProps : shape :=
  interface_extends
    [Assign (ComponentPropsWithRef E (Intrinsic "p")) BoxOwnProps] ∅.

Definition HeadingProps : shape :=
  interface_extends
    [Assign (ComponentPropsWithRef E (Intrinsic "h2")) BoxOwnProps] ∅.

Definition ImageProps : shape :=
  interface_extends
    [Assign (ComponentPropsWithRef E (Intrinsic "img")) BoxOwnProps] ∅.

Definition CardProps : shape := BoxProps.

Definition LabelProps : shape :=
  interface_extends
    [Assign (ComponentPropsWithRef E (Intrinsic "label")) BoxOwnProps] ∅.

Definition InputProps : shape :=
  interface_extends
    [Assign (ComponentPropsWithRef E (Intrinsic "input")) BoxOwnProps] ∅.

Definition SelectProps : shape :=
  interface_extends
    [Assign (ComponentPropsWithRef E (Intrinsic "select")) BoxOwnProps]
    (list_to_map [("arrow", opt (TRef "React.ReactElement" []))]).

Definition TextareaProps : shape :=
  interface_extends
    [Assign (ComponentPropsWithRef E (Intrinsic "textarea")) BoxOwnProps] ∅.

Definition RadioProps : shape :=
  interface_extends
    [Assign (ComponentPropsWithRef E (Intrinsic "input")) BoxOwnProps] ∅.

Definition CheckboxProps : shape :=
  interface_extends
    [Assign (ComponentPropsWithRef E (Intrinsic "input")) BoxOwnProps] ∅.

Definition SliderProps : shape :=
  interface_extends
    [Assign (ComponentPropsWithRef E (Intrinsic "input")) BoxOwnProps] ∅.

Definition FieldOwnProps : shape :=
  interface_extends [MarginProps E]
    (list_to_map [("label", req TString); ("name", req TString)]).

(** [FieldOwnProps & Omit<React.ComponentPropsWithRef<T>,
      'as' | keyof FieldOwnProps> & { as?: T }].  The only name two of the
    constituents can share is [as], optional in both, so the intersection is
    an object type, given by its properties. *)
Definition FieldProps (T : ElementType) : shape :=
  properties
    (intersection
       [FieldOwnProps;
        Omit (ComponentPropsWithRef E T) ({["as"]} ∪ keyof FieldOwnProps);
        list_to_map [("as", opt (TElement T))]]).

(** The default of [Field]'s type parameter,
    [React.ComponentType<InputProps>]. *)
Definition Field_default : ElementType := ComponentType InputProps.

Definition ProgressProps : shape :=
  interface_extends
    [Assign (ComponentPropsWithRef E (Intrinsic "progress")) BoxOwnProps] ∅.

Definition Donut_omitted : gset string :=
  {["opacity"]} ∪ {["color"]} ∪ {["css"]} ∪ {["sx"]} ∪ {["max"]} ∪ {["min"]}.

Definition DonutProps : shape :=
  interface_extends
    [Assign (Omit (ComponentPropsWithRef E (Intrinsic "svg")) Donut_omitted)
       BoxOwnProps]
    (list_to_map
       [("value", req TNumber);
        ("min", opt TNumber);
        ("max", opt TNumber);
        ("title", opt TString);
        ("size", opt (TUnion TString TNumber))]).

Definition Spinner_omitted : gset string :=
  {["opacity"]} ∪ {["color"]} ∪ {["css"]} ∪ {["sx"]}.

Definition SpinnerProps : shape :=
  interface_extends
    [Assign (Omit (ComponentPropsWithRef E (Intrinsic "svg")) Spinner_omitted)
       BoxOwnProps]
    (list_to_map [("size", opt (TUnion TNumber TString))]).

Definition AvatarProps : shape :=
  interface_extends [ImageProps]
    (list_to_map [("size", opt (TUnion TNumber TString))]).

Definition BadgeProps : shape := BoxProps.

Definition IconButtonProps : shape :=
  interface_extends
    [Assign (ComponentPropsWithRef E (Intrinsic "button")) BoxOwnProps]
    (list_to_map [("size", opt (TUnion TNumber TString))]).

Definition CloseProps : shape :=
  interface_extends [Omit IconButtonProps {["children"]}] ∅.

Definition AlertProps : shape := BoxProps.
Definition DividerProps : shape := BoxProps.

Definition EmbedProps : shape :=
  interface_extends
    [Assign (ComponentPropsWithRef E (Intrinsic "iframe")) BoxOwnProps]
    (list_to_map
       [("variant", opt TString);
        ("ratio", opt TNumber);
        ("src", opt (index (IframeHTMLAttributes E) "src"));
        ("frameBorder", opt (index (IframeHTMLAttributes E) "frameBorder"));
        ("allowFullScreen",
         opt (index (IframeHTMLAttributes E) "allowFullScreen"));
        ("allow", opt (index (IframeHTMLAttributes E) "allow"))]).

Definition AspectRatioProps : shape :=
  interface_extends [BoxProps] (list_to_map [("ratio", opt TNumber)]).

Definition AspectImageProps : shape :=
  interface_extends [ImageProps] (list_to_map [("ratio", opt TNumber)]).

Definition ContainerProps : shape := BoxProps.
Definition NavLinkProps : shape := LinkProps.
Definition MessageProps : shape := BoxProps.
Definition MenuButtonProps : shape := IconButtonProps.

Definition SwitchProps : shape :=
  interface_extends
    [Assign (IntrinsicProps E "input") BoxOwnProps]
    (list_to_map [("label", opt TString)]).

End declarations.

(** ** The registry of exported components *)

Inductive component :=
| Box | Flex | Grid | Button | Link | Text | Paragraph | Heading | Image
| Card | Label | Input | Select | Textarea | Radio | Checkbox | Slider
| Field | Progress | Donut | Spinner | Avatar | Badge | Close | Alert
| Divider | Embed | AspectRatio | AspectImage | Container | NavLink
| Message | IconButton | MenuButton | Switch.

#[global] Instance component_eq_dec : EqDecision component.
Proof. solve_decision. Defined.

Definition components : list component :=
  [Box; Flex; Grid; Button; Link; Text; Paragraph; Heading; Image;
   Card; Label; Input; Select; Textarea; Radio; Checkbox; Slider;
   Field; Progress; Donut; Spinner; Avatar; Badge; Close; Alert;
   Divider; Embed; AspectRatio; AspectImage; Container; NavLink;
   Message; IconButton; MenuButton; Switch].

(** The props type in each [export const X: ...] (for [Field], the
    parameter type at the default type argument). *)
Definition props (E : Typings) (c : component) : shape :=
  match c with
  | Box => BoxProps E
  | Flex => FlexProps E
  | Grid => GridProps E
  | Button => ButtonProps E
  | Link => LinkProps E
  | Text => BoxProps E
  | Paragraph => ParagraphProps E
  | Heading => HeadingProps E
  | Image => ImageProps E
  | Card => CardProps E
  | Label => LabelProps E
  | Input => InputProps E
  | Select => SelectProps E
  | Textarea => TextareaProps E
  | Radio => RadioProps E
  | Checkbox => CheckboxProps E
  | Slider => SliderProps E
  | Field => FieldProps E (Field_default E)
  | Progress => ProgressProps E
  | Donut => DonutProps E
  | Spinner => SpinnerProps E
  | Avatar => AvatarProps E
  | Badge => BadgeProps E
  | Close => CloseProps E
  | Alert => AlertProps E
  | Divider => DividerProps E
  | Embed => EmbedProps E
  | AspectRatio => AspectRatioProps E
  | AspectImage => AspectImageProps E
  | Container => ContainerProps E
  | NavLink => NavLinkProps E
  | Message => MessageProps E
  | IconButton => IconButtonProps E
  | MenuButton => MenuButtonProps E
  | Switch => SwitchProps E
  end.

(** The host tag whose attribute set the props are derived from. *)
Definition host (c : component) : string :=
  match c with
  | Box | Flex | Grid | Text | Card | Badge | Alert | Divider
  | AspectRatio | Container | Message => "div"
  | Button | Close | IconButton | MenuButton => "button"
  | Link | NavLink => "a"
  | Paragraph => "p"
  | Heading => "h2"
  | Image | Avatar | AspectImage => "img"
  | Label => "label"
  | Input | Radio | Checkbox | Slider | Field | Switch => "input"
  | Select => "select"
  | Textarea => "textarea"
  | Progress => "progress"
  | Donut | Spinner => "svg"
  | Embed => "iframe"
  end.

(** The native attribute set: [React.ComponentPropsWithRef<'tag'>], and
    [React.ComponentProps<'input'>] for [Switch]. *)
Definition native (E : Typings) (c : component) : shape :=
  match c with
  | Switch => IntrinsicProps E "input"
  | _ => ComponentPropsWithRef E (Intrinsic (host c))
  end.

(** The names a component removes from the native attribute set before it
    composes it with the own props ([Omit<..., names>] as first argument of
    [Assign]). *)
Definition exclusions (c : component) : gset string :=
  match c with
  | Donut => Donut_omitted
  | Spinner => Spinner_omitted
  | _ => ∅
  end.

(** The own-props interface a component's props are built from. *)
Definition own_props (E : Typings) (c : component) : shape :=
  match c with
  | Field => FieldOwnProps E
  | _ => BoxOwnProps E
  end.

(** The members the body of a component's props interface declares, on top
    of the composition it extends ([CloseProps] has an empty body and
    [FieldProps] is not an interface). *)
Definition members (E : Typings) (c : component) : shape :=
  match c with
  | Grid =>
      list_to_map
        [("width", opt (TRef "ResponsiveStyleValue" [TUnion TString TNumber]));
         ("columns", opt (TRef "ResponsiveStyleValue" [TUnion TString TNumber]));
         ("gap", opt (TRef "ResponsiveStyleValue" [TUnion TString TNumber]));
         ("repeat", opt (TUnion (TLit "fit") (TLit "fill")))]
  | Select => list_to_map [("arrow", opt (TRef "React.ReactElement" []))]
  | Donut =>
      list_to_map
        [("value", req TNumber);
         ("min", opt TNumber);
         ("max", opt TNumber);
         ("title", opt TString);
         ("size", opt (TUnion TString TNumber))]
  | Spinner | Avatar | IconButton | MenuButton =>
      list_to_map [("size", opt (TUnion TNumber TString))]
  | Embed =>
      list_to_map
        [("variant", opt TString);
         ("ratio", opt TNumber);
         ("src", opt (index (IframeHTMLAttributes E) "src"));
         ("frameBorder", opt (index (IframeHTMLAttributes E) "frameBorder"));
         ("allowFullScreen",
          opt (index (IframeHTMLAttributes E) "allowFullScreen"));
         ("allow", opt (index (IframeHTMLAttributes E) "allow"))]
  | AspectRatio | AspectImage => list_to_map [("ratio", opt TNumber)]
  | Switch => list_to_map [("label", opt TString)]
  | _ => ∅
  end.

(** Components whose props are [Assign<native, BoxOwnProps>] plus their own
    members: no [Omit], no type parameter. *)
Definition plain_composition (c : component) : bool :=
  match c with
  | Donut | Spinner | Close | Field => false
  | _ => true
  end.

(** [export type XProps = YProps]: the component whose props type each
    aliased props type names. *)
Definition alias_base (c : component) : option component :=
  match c with
  | Flex | Text | Card | Badge | Alert | Divider | Container | Message =>
      Some Box
  | NavLink => Some Link
  | MenuButton => Some IconButton
  | _ => None
  end.

(** The composition a component extends: the native attribute set without
    the excluded names, merged with the own props. *)
Definition composed (E : Typings) (c : component) : shape :=
  Assign (Omit (native E c) (exclusions c)) (BoxOwnProps E).

(** Components whose props interface extends [Assign<..., BoxOwnProps>]
    over their host's attribute set ([CloseProps] extends an [Omit] of
    another props type, [FieldProps] is an intersection). *)
Definition composes_native (c : component) : bool :=
  match c with
  | Close | Field => false
  | _ => true
  end.

(** [interface XProps extends YProps { ... }]: the component whose props
    interface a props interface extends. *)
Definition extended_interface (c : component) : option component :=
  match c with
  | Grid | AspectRatio => Some Box
  | Avatar | AspectImage => Some Image
  | _ => None
  end.

(** ** The shapes as the specification words them

    Second definitions, written from the specification's sentences, to be
    compared with the declarations above. *)




(** "a required string field label, a required string field name, every
    prop of T except as, label and name (each with T's type for it), and an
    optional field as of type T" *)
Definition FieldProps_as_specified (E : Typings) (T : ElementType) : shape :=
  list_to_map
    [("label", req TString); ("name", req TString); ("as", opt (TElement T))]
  ∪ Omit (ComponentPropsWithRef E T) ({["as"]} ∪ {["label"]} ∪ {["name"]}).

(** ** Props values *)

(** A props object is a finite map from names to values; [has_ty] says
    which values inhabit which type. *)
Section values.
Context {val : Type} (has_ty : val → ty → bool).

(** Every declared field is supplied at its type, or is optional and
    absent. *)
Definition conforms (v : gmap string val) (S : shape) : Prop :=
  map_Forall
    (λ k f, match v !! k with
            | Some x => has_ty x (fty f) = true
            | None => optional f = true
            end) S.

(** A props object is accepted at a shape when it conforms to it and
    supplies no name the shape does not declare (the attributes of a JSX
    element are checked for excess properties, also against a shape that
    declares nothing). *)
Definition accepts (S : shape) (v : gmap string val) : Prop :=
  dom v ⊆ keyof S ∧ conforms v S.

#[global] Instance conforms_dec v S : Decision (conforms v S).
Proof.
  unfold conforms. apply map_Forall_dec. intros k f.
  destruct (v !! k); apply _.
Defined.

#[global] Instance accepts_dec S v : Decision (accepts S v).
Proof. unfold accepts. apply _. Defined.

End values.

(** Each member the component declares itself is absent from the native
    attribute set or declared there identically. *)
Definition members_agree (E : Typings) (c : component) : Prop :=
  map_Forall
    (λ k f, native E c !! k = None ∨ native E c !! k = Some f)
    (members E c).

(** Each native attribute the component excludes is declared by the own
    props at a type that has every value of the native type. *)
Definition exclusions_widen {val} (has_ty : val → ty → bool)
    (E : Typings) (c : component) : Prop :=
  ∀ P t, P ∈ exclusions c → native E c !! P = Some t →
    ∃ u, BoxOwnProps E !! P = Some u ∧
         ∀ x, has_ty x (fty t) = true → has_ty x (fty u) = true.

(** ** A sample of the imported typings

    An excerpt of the attribute tables of [@types/react] and of the prop
    groups of [styled-system], with a small universe of values.  The general
    results quantify over all [Typings]; the sample instantiates them. *)

Module Sample.

Inductive jsval :=
| VString (s : string)
| VNumber (n : Z)
| VBoolean (b : bool)
| VOpaque (type_name : string).

(** The object-like values of an imported named type are the opaque values
    tagged with its name (an array or object passed as a [ResponsiveValue],
    a component passed as an element type). *)
(** The scalars among the values of the imported types: a tag name is an
    element type; strings, numbers and booleans are nodes and
    interpolations; strings and numbers are responsive style values. *)
Definition scalar_of (name : string) (v : jsval) : bool :=
  match v with
  | VString _ =>
      bool_decide (name ∈ ["React.ElementType"; "React.ReactNode";
                           "Interpolation"; "ResponsiveStyleValue"])
  | VNumber _ =>
      bool_decide (name ∈ ["React.ReactNode"; "Interpolation";
                           "ResponsiveStyleValue"])
  | VBoolean _ => bool_decide (name ∈ ["React.ReactNode"; "Interpolation"])
  | VOpaque _ => false
  end.

Fixpoint has_ty (v : jsval) (t : ty) {struct t} : bool :=
  match t with
  | TString => match v with VString _ => true | _ => false end
  | TNumber => match v with VNumber _ => true | _ => false end
  | TBoolean => match v with VBoolean _ => true | _ => false end
  | TAny => true
  | TNever => false
  | TLit s => match v with VString s' => bool_decide (s' = s) | _ => false end
  | TUnion a b => has_ty v a || has_ty v b
  | TInter a b => has_ty v a && has_ty v b
  | TRef name _ =>
      match v with
      | VOpaque n => bool_decide (n = name)
      | _ => scalar_of name v
      end
  | TElement (Intrinsic tag) =>
      match v with VString s => bool_decide (s = tag) | _ => false end
  | TElement (ComponentType _) =>
      match v with VOpaque n => bool_decide (n = "component") | _ => false end
  end.

(** The scalar values of a CSS property: colours are strings, lengths and
    opacities strings or numbers. *)
Definition css_property (prop : string) : ty :=
  if bool_decide (prop = "CSS.Property.Color") then TString
  else if bool_decide (prop = "CSS.Property.BackgroundColor") then TString
  else TUnion TString TNumber.

(** [ResponsiveValue<T>]: a [T], or an array or object of them (opaque). *)
Definition responsive (prop : string) : ty :=
  TUnion (css_property prop) (TRef "ResponsiveValue" [css_property prop]).

Definition Attributes : shape :=
  list_to_map
    [("key", opt (TUnion TString TNumber));
     ("ref", opt (TRef "React.Ref" []))].

Definition HTMLAttributes : shape :=
  list_to_map
    [("children", opt (TRef "React.ReactNode" []));
     ("className", opt TString);
     ("id", opt TString);
     ("color", opt TString);
     ("onClick", opt (TRef "React.MouseEventHandler" []))] ∪ Attributes.

Definition ButtonHTMLAttributes : shape :=
  list_to_map
    [("disabled", opt TBoolean);
     ("name", opt TString);
     ("type", opt (TUnion (TLit "submit") (TUnion (TLit "reset") (TLit "button"))));
     ("value", opt (TUnion TString TNumber))].

Definition InputHTMLAttributes : shape :=
  list_to_map
    [("checked", opt TBoolean);
     ("name", opt TString);
     ("type", opt TString);
     ("min", opt (TUnion TNumber TString));
     ("max", opt (TUnion TNumber TString));
     ("size", opt TNumber);
     ("value", opt (TUnion TString TNumber))].

Definition ImgHTMLAttributes : shape :=
  list_to_map
    [("alt", opt TString);
     ("src", opt TString);
     ("width", opt (TUnion TNumber TString));
     ("height", opt (TUnion TNumber TString))].

Definition IframeHTMLAttributes : shape :=
  list_to_map
    [("allow", opt TString);
     ("allowFullScreen", opt TBoolean);
     ("frameBorder", opt (TUnion TNumber TString));
     ("src", opt TString)].

Definition SVGAttributes : shape :=
  list_to_map
    [("children", opt (TRef "React.ReactNode" []));
     ("className", opt TString);
     ("id", opt TString);
     ("color", opt TString);
     ("opacity", opt (TUnion TNumber TString));
     ("min", opt (TUnion TNumber TString));
     ("max", opt (TUnion TNumber TString));
     ("viewBox", opt TString);
     ("width", opt (TUnion TNumber TString));
     ("height", opt (TUnion TNumber TString))] ∪ Attributes.

Definition intrinsic (tag : string) : shape :=
  if bool_decide (tag = "svg") then SVGAttributes
  else if bool_decide (tag = "button") then ButtonHTMLAttributes ∪ HTMLAttributes
  else if bool_decide (tag = "input") then InputHTMLAttributes ∪ HTMLAttributes
  else if bool_decide (tag = "img") then ImgHTMLAttributes ∪ HTMLAttributes
  else if bool_decide (tag = "iframe") then IframeHTMLAttributes ∪ HTMLAttributes
  else HTMLAttributes.

Definition MarginProps : shape :=
  list_to_map
    ((λ k, (k, opt (responsive "CSS.Property.Margin"))) <$>
     ["m"; "margin"; "mt"; "marginTop"; "mr"; "marginRight"; "mb";
      "marginBottom"; "ml"; "marginLeft"; "mx"; "marginX"; "my"; "marginY"]).

Definition PaddingProps : shape :=
  list_to_map
    ((λ k, (k, opt (responsive "CSS.Property.Padding"))) <$>
     ["p"; "padding"; "pt"; "paddingTop"; "pr"; "paddingRight"; "pb";
      "paddingBottom"; "pl"; "paddingLeft"; "px"; "paddingX"; "py"; "paddingY"]).

Definition SpaceProps : shape := MarginProps ∪ PaddingProps.

Definition ColorProps : shape :=
  list_to_map
    [("color", opt (responsive "CSS.Property.Color"));
     ("bg", opt (responsive "CSS.Property.BackgroundColor"));
     ("backgroundColor", opt (responsive "CSS.Property.BackgroundColor"));
     ("opacity", opt (responsive "CSS.Property.Opacity"))].

Definition intrinsic_optional tag : all_optional (intrinsic tag).
Proof. unfold intrinsic. repeat case_bool_decide; compute_done. Qed.

Definition SpaceProps_optional : all_optional SpaceProps.
Proof. compute_done. Qed.

Definition ColorProps_optional : all_optional ColorProps.
Proof. compute_done. Qed.

Definition MarginProps_optional : all_optional MarginProps.
Proof. compute_done. Qed.

Definition typings : Typings :=
  Build_Typings intrinsic intrinsic IframeHTMLAttributes
    SpaceProps ColorProps MarginProps
    intrinsic_optional intrinsic_optional
    SpaceProps_optional ColorProps_optional MarginProps_optional.

(** A component whose props reuse a margin-prop name for something else. *)
Definition CustomProps : shape :=
  list_to_map
    [("margin", req TBoolean);
     ("placeholder", opt TString)].

Definition CustomComponent : ElementType := ComponentType CustomProps.

End Sample.

(** ** Lookup equations of the type operators *)

Lemma field_eta (f : field) : mk_field (optional f) (fty f) = f.
Proof. by destruct f. Qed.

(** *** Reduction to [never] *)

Lemma never_property_required fs :
  never_property fs = true → ∃ f, f ∈ fs ∧ optional f = false.
Proof.
  unfold never_property. rewrite !andb_true_iff, negb_true_iff.
  intros [[[H _] _] _].
  induction fs as [|f fs IH]; [discriminate H|].
  simpl in H. destruct (optional f) eqn:Hf.
  - destruct (IH H) as (g & Hg & Ho). exists g. split; [by right|done].
  - exists f. split; [by left|done].
Qed.

Lemma never_property_single f : never_property [f] = false.
Proof.
  unfold never_property. simpl.
  destruct (is_empty (property_extent f)); simpl;
    by rewrite ?andb_false_r.
Qed.

Lemma never_property_nil : never_property [] = false.
Proof. reflexivity. Qed.

Lemma meet_prim_diag p : meet_prim p p = Some p.
Proof. destruct p; simpl; try done. by rewrite decide_True. Qed.

Lemma meet_diag_nonempty e : is_empty e = false → is_empty (meet e e) = false.
Proof.
  destruct e as [|[|a l]]; try done. intros _. simpl.
  destruct a as [[p|] o]; unfold meet_atom; simpl;
    by rewrite ?meet_prim_diag.
Qed.

Lemma never_property_diag f : never_property [f; f] = false.
Proof.
  unfold never_property. simpl.
  destruct (is_empty (property_extent f)) eqn:He; simpl.
  - by rewrite !andb_false_r.
  - by rewrite (meet_diag_nonempty _ He), !andb_false_r.
Qed.

Lemma never_reduced_spec (Ts : list shape) :
  never_reduced Ts = true ↔
  ∃ P, never_property (omap (λ T : shape, T !! P) Ts) = true.
Proof.
  unfold never_reduced. rewrite existsb_exists. split.
  - intros (P & _ & H). eauto.
  - intros (P & H). exists P. split; [|done].
    destruct (never_property_required _ H) as (f & Hf & _).
    apply list_elem_of_omap in Hf as (T & HT & HP).
    apply list_elem_of_In, elem_of_elements, elem_of_union_list.
    exists (dom T). split; [by apply list_elem_of_fmap_2|].
    apply elem_of_dom. eauto.
Qed.

Lemma never_reduced_pair (T U : shape) :
  never_reduced [T; U] = true ↔
  ∃ P t u, T !! P = Some t ∧ U !! P = Some u ∧ never_property [t; u] = true.
Proof.
  rewrite never_reduced_spec. split.
  - intros (P & H). exists P. simpl in H.
    destruct (T !! P) as [t|], (U !! P) as [u|]; simpl in H.
    + eauto.
    + by rewrite never_property_single in H.
    + by rewrite never_property_single in H.
    + discriminate H.
  - intros (P & t & u & Ht & Hu & H). exists P. simpl. by rewrite Ht, Hu.
Qed.

(** Constituents that share no required property are not reduced. *)
Lemma not_reduced_optional (T U : shape) :
  (∀ P t u, T !! P = Some t → U !! P = Some u →
            optional t = true ∧ optional u = true) →
  never_reduced [T; U] = false.
Proof.
  intros H. apply not_true_is_false. intros Hr.
  apply never_reduced_pair in Hr as (P & t & u & Ht & Hu & Hn).
  destruct (H P t u Ht Hu) as [Ho1 Ho2].
  destruct (never_property_required _ Hn) as (f & Hf & Ho).
  apply elem_of_cons in Hf as [->|Hf]; [congruence|].
  apply elem_of_cons in Hf as [->|Hf]; [congruence|].
  by apply elem_of_nil in Hf.
Qed.

Lemma not_reduced_all_optional (T U : shape) :
  all_optional T → all_optional U → never_reduced [T; U] = false.
Proof.
  intros HT HU. apply not_reduced_optional. intros P t u Ht Hu.
  split; [by apply (HT P)|by apply (HU P)].
Qed.

Lemma not_reduced_disjoint (T U : shape) :
  keyof T ## keyof U → never_reduced [T; U] = false.
Proof.
  intros Hd. apply not_reduced_optional. intros P t u Ht Hu.
  destruct (Hd P); apply elem_of_dom; eauto.
Qed.

Lemma intersection_members_pair (T U : shape) P :
  intersection_members [T; U] !! P =
  match T !! P, U !! P with
  | Some t, Some u => Some (merge t u)
  | Some t, None => Some t
  | None, o => o
  end.
Proof.
  unfold intersection_members. simpl. rewrite !lookup_union_with, lookup_empty.
  by destruct (T !! P), (U !! P).
Qed.

Lemma mapped_lookup (M : objty) template P :
  mapped M template !! P =
  (λ m, mk_field (optional m) (template P)) <$> properties M !! P.
Proof.
  unfold mapped. rewrite map_lookup_imap. by destruct (properties M !! P).
Qed.

Lemma Assign_select_T (T U : shape) P t :
  T !! P = Some t → Assign_select T U P = from_T.
Proof.
  intros H. unfold Assign_select, keyof.
  destruct (decide (P ∈ dom T)) as [|n]; [done|].
  destruct n. apply elem_of_dom. eauto.
Qed.

Lemma Assign_select_U (T U : shape) P u :
  T !! P = None → U !! P = Some u → Assign_select T U P = from_U.
Proof.
  intros HT HU. unfold Assign_select, keyof.
  destruct (decide (P ∈ dom T)) as [i|_].
  { apply elem_of_dom in i as [? ?]. congruence. }
  destruct (decide (P ∈ dom U)) as [|n]; [done|].
  destruct n. apply elem_of_dom. eauto.
Qed.

(** [Assign] over a reduced intersection has no member. *)
Lemma Assign_reduced (T U : shape) :
  never_reduced [T; U] = true → Assign T U = ∅.
Proof.
  intros H. unfold Assign, intersect, intersection. rewrite H.
  apply map_eq. intros P. by rewrite mapped_lookup, !lookup_empty.
Qed.

Lemma Assign_lookup (T U : shape) P :
  never_reduced [T; U] = false →
  Assign T U !! P =
  match T !! P with
  | Some t =>
      Some (mk_field (optional t && from_option optional true (U !! P)) (fty t))
  | None => U !! P
  end.
Proof.
  intros H. unfold Assign, intersect, intersection. rewrite H.
  rewrite mapped_lookup. cbn [properties].
  rewrite intersection_members_pair.
  unfold Assign_field, index.
  destruct (T !! P) as [t|] eqn:HT.
  - rewrite (Assign_select_T T U P t HT).
    destruct (U !! P); simpl; [done|].
    by rewrite andb_true_r.
  - destruct (U !! P) as [u|] eqn:HU; simpl; [|done].
    rewrite (Assign_select_U T U P u HT HU).
    by rewrite field_eta.
Qed.

Lemma Assign_lookup_some (T U : shape) P f :
  Assign T U !! P = Some f →
  never_reduced [T; U] = false ∧
  match T !! P with
  | Some t =>
      f = mk_field (optional t && from_option optional true (U !! P)) (fty t)
  | None => U !! P = Some f
  end.
Proof.
  intros H. destruct (never_reduced [T; U]) eqn:Hr.
  - by rewrite (Assign_reduced T U Hr), lookup_empty in H.
  - split; [done|]. rewrite (Assign_lookup T U P Hr) in H.
    destruct (T !! P); [by injection H|done].
Qed.

Lemma Assign_keys (T U : shape) :
  never_reduced [T; U] = false → keyof (Assign T U) = keyof T ∪ keyof U.
Proof.
  intros Hr. unfold keyof. apply set_eq. intros P.
  rewrite elem_of_union, !elem_of_dom, (Assign_lookup T U P Hr).
  destruct (T !! P) as [t|], (U !! P) as [u|]; simpl; split;
    try (intros [H|H]); try intros H; eauto;
    by apply is_Some_None in H.
Qed.

Lemma Pick_lookup (T : shape) K P :
  Pick T K !! P = if decide (P ∈ K) then T !! P else None.
Proof.
  unfold Pick. destruct (decide (P ∈ K)) as [i|n].
  - destruct (T !! P) as [f|] eqn:H.
    + by apply map_lookup_filter_Some.
    + apply map_lookup_filter_None. left. done.
  - apply map_lookup_filter_None. right. intros f _. done.
Qed.

Lemma Omit_lookup (T : shape) K P :
  Omit T K !! P = if decide (P ∈ K) then None else T !! P.
Proof.
  unfold Omit, Exclude, keyof. rewrite Pick_lookup.
  destruct (decide (P ∈ K)) as [i|n].
  - rewrite decide_False; [done|]. rewrite elem_of_difference. tauto.
  - destruct (T !! P) as [f|] eqn:H.
    + rewrite decide_True; [done|].
      rewrite elem_of_difference, elem_of_dom. eauto.
    + by case_decide.
Qed.

Lemma Omit_nothing (T : shape) : Omit T ∅ = T.
Proof.
  apply map_eq. intros P. rewrite Omit_lookup. by rewrite decide_False.
Qed.

Lemma Omit_all_optional (T : shape) K : all_optional T → all_optional (Omit T K).
Proof.
  intros H P f. rewrite Omit_lookup. case_decide; [done|]. apply H.
Qed.

Lemma interface_extends_lookup (B body : shape) P :
  interface_extends [B] body !! P =
  match body !! P with Some f => Some f | None => B !! P end.
Proof.
  unfold interface_extends. simpl. rewrite (right_id_L ∅ (∪)).
  rewrite lookup_union. by destruct (body !! P), (B !! P).
Qed.

Lemma interface_extends_empty (B : shape) : interface_extends [B] ∅ = B.
Proof.
  apply map_eq. intros P. by rewrite interface_extends_lookup, lookup_empty.
Qed.

(** ** The composition algebra *)

(** C1, as stated, fails: two shapes that both require [kind] at different
    literal types have the intersection [never], and the merged shape has no
    field at all. *)
Lemma Assign_conflict_empty :
  Assign {["kind" := req (TLit "a")]} {["kind" := req (TLit "b")]} = ∅ ∧
  keyof (Assign {["kind" := req (TLit "a")]} {["kind" := req (TLit "b")]})
    ≠ keyof ({["kind" := req (TLit "a")]} : shape)
      ∪ keyof ({["kind" := req (TLit "b")]} : shape).
Proof.
  assert (Assign {["kind" := req (TLit "a")]} {["kind" := req (TLit "b")]}
            = ∅) as H by (apply Assign_reduced; vm_compute; reflexivity).
  split; [exact H|]. rewrite H. unfold keyof.
  rewrite dom_empty_L, !dom_singleton_L. intros Heq.
  apply (not_elem_of_empty (C:=gset string) "kind"). rewrite Heq.
  apply elem_of_union_l, elem_of_singleton. reflexivity.
Qed.

(** C1 (amended): for every pair of prop shapes [T] and [U] whose
    intersection [T & U] is not reduced to [never] (as when every field the
    two share is optional in both), [Assign<T, U>] has exactly the field
    names of [T] and of [U]; a field of [T] (in particular one that both
    declare) has [T]'s type, and a field that only [U] declares has [U]'s
    type.  When [T & U] is reduced to [never], [Assign<T, U>] has no
    field. *)
Theorem Assign_native_wins (T U : shape) :
  (never_reduced [T; U] = false →
   keyof (Assign T U) = keyof T ∪ keyof U ∧
   ∀ P, fty <$> Assign T U !! P =
        match T !! P with
        | Some t => Some (fty t)
        | None => fty <$> U !! P
        end) ∧
  (never_reduced [T; U] = true → Assign T U = ∅) ∧
  ((∀ P t u, T !! P = Some t → U !! P = Some u →
             optional t = true ∧ optional u = true) →
   never_reduced [T; U] = false).
Proof.
  split; [|split; [apply Assign_reduced|apply not_reduced_optional]].
  intros Hr. split; [by apply Assign_keys|].
  intros P. rewrite (Assign_lookup T U P Hr). by destruct (T !! P).
Qed.

Lemma Assign_native_wins_witness :
  keyof (Assign {["color" := opt TString]}
           (list_to_map [("color", opt TNumber); ("sx", opt TAny)])) =
    keyof ({["color" := opt TString]} : shape)
    ∪ keyof (list_to_map [("color", opt TNumber); ("sx", opt TAny)] : shape) ∧
  fty <$> Assign {["color" := opt TString]}
            (list_to_map [("color", opt TNumber); ("sx", opt TAny)])
          !! "color" = Some TString.
Proof.
  destruct (Assign_native_wins {["color" := opt TString]}
              (list_to_map [("color", opt TNumber); ("sx", opt TAny)]))
    as (H & _ & _).
  destruct H as [Hk Ht]; [vm_compute; reflexivity|].
  split; [exact Hk|]. rewrite Ht. vm_compute. reflexivity.
Defined.

(** C8, as stated, fails: a field that [T] itself declares at type [never]
    (the idiom [children?: never] forbids a prop) is copied into the merged
    shape. *)
Lemma Assign_copies_never :
  Assign {["children" := opt TNever]} ∅ !! "children" = Some (opt TNever) ∧
  ¬ (∀ (T U : shape) P f, Assign T U !! P = Some f → fty f ≠ TNever).
Proof.
  assert (Assign {["children" := opt TNever]} ∅ !! "children"
            = Some (opt TNever)) as H by (by vm_compute).
  split; [exact H|].
  intros all. by apply (all _ _ _ _ H).
Qed.

(** C8 (amended): every field name of [Assign<T, U>] is a field name of [T]
    or of [U], so the [never] branch of the conditional is never selected; a
    merged field has type [never] only when the field of [T] (or, for a name
    only [U] declares, of [U]) it is copied from has that type. *)
Theorem Assign_never_unreachable (T U : shape) P f :
  Assign T U !! P = Some f →
  (P ∈ keyof T ∨ P ∈ keyof U) ∧
  Assign_select T U P ≠ from_never ∧
  (fty f = TNever →
   ∃ s, (T !! P = Some s ∨ T !! P = None ∧ U !! P = Some s) ∧
        fty s = TNever).
Proof.
  intros H.
  destruct (Assign_lookup_some T U P f H) as [Hr Hf].
  assert (P ∈ keyof (Assign T U)) as Hk by (apply elem_of_dom; eauto).
  rewrite (Assign_keys T U Hr), elem_of_union in Hk. split; [done|].
  destruct (T !! P) as [t|] eqn:HT.
  - rewrite (Assign_select_T T U P t HT). split; [done|].
    subst f. simpl. eauto.
  - rewrite (Assign_select_U T U P f HT Hf). split; [done|]. eauto.
Qed.

Lemma Assign_never_unreachable_witness :
  Assign {["x" := req TString]} {["y" := opt TNumber]} !! "y"
    = Some (opt TNumber) ∧
  Assign_select {["x" := req TString]} {["y" := opt TNumber]} "y"
    ≠ from_never.
Proof.
  assert (Assign {["x" := req TString]} {["y" := opt TNumber]} !! "y"
            = Some (opt TNumber)) as H by (vm_compute; reflexivity).
  split; [exact H|].
  apply (Assign_never_unreachable _ _ _ _ H).
Defined.

(** ** The registry *)

Lemma components_complete c : c ∈ components.
Proof. destruct c; compute_done. Qed.

Lemma components_NoDup : NoDup components.
Proof. compute_done. Qed.

(** ** The own props *)

Lemma BoxOwnProps_lookup E P :
  BoxOwnProps E !! P =
  if decide (P = "as") then Some (opt (TRef "React.ElementType" []))
  else if decide (P = "variant") then Some (opt TString)
  else if decide (P = "css") then Some (opt (TRef "Interpolation" [TAny]))
  else if decide (P = "sx") then Some (opt (TRef "ThemeUIStyleObject" []))
  else match SpaceProps E !! P with
       | Some f => Some f
       | None => ColorProps E !! P
       end.
Proof.
  unfold BoxOwnProps, interface_extends. simpl.
  rewrite (right_id_L ∅ (∪)), !lookup_union.
  destruct (SpaceProps E !! P), (ColorProps E !! P);
    repeat case_decide; simplify_map_eq; done.
Qed.

Lemma BoxOwnProps_all_optional E :
  all_optional (SpaceProps E) → all_optional (ColorProps E) →
  all_optional (BoxOwnProps E).
Proof.
  intros HS HC P f. rewrite BoxOwnProps_lookup.
  repeat (case_decide; [by intros [= <-]|]).
  destruct (SpaceProps E !! P) as [s|] eqn:Hs.
  - intros [= <-]. by apply (HS P).
  - apply HC.
Qed.

Lemma FieldOwnProps_lookup E P :
  FieldOwnProps E !! P =
  if decide (P = "label" ∨ P = "name") then Some (req TString)
  else MarginProps E !! P.
Proof.
  unfold FieldOwnProps. rewrite interface_extends_lookup.
  destruct (MarginProps E !! P); case_decide as H.
  1,3: by destruct H as [-> | ->].
  all: simpl; rewrite !lookup_insert_ne, lookup_empty by naive_solver; done.
Qed.

Lemma accepts_empty {val} (has_ty : val → ty → bool) (S : shape) :
  all_optional S → accepts has_ty S ∅.
Proof.
  intros H. split; [set_solver|].
  intros P f Hf. rewrite lookup_empty. by apply (H P).
Qed.

(** C7, as stated, fails: the own props of [Field] declare the required
    fields [label] and [name], so the empty props object does not satisfy
    them. *)
Lemma FieldOwnProps_required :
  ¬ all_optional (own_props Sample.typings Field) ∧
  ¬ accepts Sample.has_ty (own_props Sample.typings Field) ∅.
Proof.
  assert (own_props Sample.typings Field !! "label" = Some (req TString))
    as Hl by apply FieldOwnProps_lookup.
  split.
  - intros H. by specialize (H _ _ Hl).
  - intros [_ H]. by specialize (H _ _ Hl).
Qed.

(** C7 (amended): the own-props shape of every component other than [Field]
    is [BoxOwnProps]; the attributes it declares are optional and, the
    imported spacing and colour props being optional too, the props object
    that supplies none of its fields satisfies it.  The own props of [Field]
    require [label] and [name]. *)
Theorem own_props_optional E :
  all_optional (SpaceProps E) → all_optional (ColorProps E) →
  (∀ c, c ≠ Field → own_props E c = BoxOwnProps E) ∧
  all_optional (BoxOwnProps E) ∧
  (∀ val (has_ty : val → ty → bool), accepts has_ty (BoxOwnProps E) ∅) ∧
  FieldOwnProps E !! "label" = Some (req TString) ∧
  FieldOwnProps E !! "name" = Some (req TString).
Proof.
  intros HS HC.
  pose proof (BoxOwnProps_all_optional E HS HC) as HB.
  split; [by intros []|].
  split; [done|].
  split; [intros; by apply accepts_empty|].
  split; apply FieldOwnProps_lookup.
Qed.

Lemma own_props_optional_witness :
  all_optional (BoxOwnProps Sample.typings) ∧
  accepts Sample.has_ty (own_props Sample.typings Box) ∅.
Proof.
  destruct (own_props_optional Sample.typings) as (_ & H1 & H2 & _).
  - compute_done.
  - compute_done.
  - split; [exact H1 | apply H2].
Defined.

(** ** The intersection behind [FieldProps] *)

Lemma intersection_members_triple (A B C : shape) P :
  intersection_members [A; B; C] !! P =
  match A !! P, B !! P, C !! P with
  | Some a, Some b, Some c => Some (merge a (merge b c))
  | Some a, Some b, None => Some (merge a b)
  | Some a, None, Some c => Some (merge a c)
  | Some a, None, None => Some a
  | None, Some b, Some c => Some (merge b c)
  | None, Some b, None => Some b
  | None, None, o => o
  end.
Proof.
  unfold intersection_members. simpl. rewrite !lookup_union_with, lookup_empty.
  by destruct (A !! P), (B !! P), (C !! P).
Qed.

Lemma FieldProps_not_reduced E T :
  never_reduced
    [FieldOwnProps E;
     Omit (ComponentPropsWithRef E T) ({["as"]} ∪ keyof (FieldOwnProps E));
     list_to_map [("as", opt (TElement T))]] = false.
Proof.
  apply not_true_is_false. intros Hr.
  apply never_reduced_spec in Hr as [P Hn]. simpl in Hn.
  rewrite Omit_lookup in Hn.
  destruct (FieldOwnProps E !! P) as [f|] eqn:Hf.
  - rewrite decide_True in Hn
      by (apply elem_of_union_r, elem_of_dom; eauto).
    destruct (decide (P = "as")) as [->|n].
    + rewrite FieldOwnProps_lookup, decide_False in Hf by naive_solver.
      pose proof (MarginProps_optional E "as" f Hf) as Ho. simpl in Ho.
      destruct (never_property_required _ Hn) as (g & Hg & Hgo).
      apply elem_of_cons in Hg as [->|Hg]; [congruence|].
      apply elem_of_cons in Hg as [->|Hg]; [discriminate Hgo|].
      by apply elem_of_nil in Hg.
    + rewrite lookup_insert_ne, lookup_empty in Hn by done.
      simpl in Hn. by rewrite never_property_single in Hn.
  - destruct (decide (P = "as")) as [->|n].
    + rewrite decide_True in Hn by set_solver.
      simpl in Hn. discriminate Hn.
    + rewrite lookup_insert_ne, lookup_empty in Hn by done.
      case_decide; simpl in Hn; [discriminate Hn|].
      destruct (ComponentPropsWithRef E T !! P); simpl in Hn;
        [by rewrite never_property_single in Hn|discriminate Hn].
Qed.

Lemma FieldProps_lookup E T P :
  FieldProps E T !! P =
  if decide (P = "as") then
    match MarginProps E !! "as" with
    | Some m => Some (mk_field (optional m) (TInter (fty m) (TElement T)))
    | None => Some (opt (TElement T))
    end
  else match FieldOwnProps E !! P with
       | Some f => Some f
       | None => ComponentPropsWithRef E T !! P
       end.
Proof.
  unfold FieldProps, intersection. rewrite FieldProps_not_reduced.
  cbn [properties]. rewrite intersection_members_triple, Omit_lookup.
  destruct (decide (P = "as")) as [->|n].
  - rewrite decide_True by set_solver.
    rewrite FieldOwnProps_lookup, decide_False by naive_solver.
    assert ((list_to_map [("as", opt (TElement T))] : shape) !! "as"
            = Some (opt (TElement T))) as -> by apply lookup_insert_eq.
    destruct (MarginProps E !! "as") as [m|]; [|done].
    unfold merge. simpl. by rewrite andb_true_r.
  - assert ((list_to_map [("as", opt (TElement T))] : shape) !! P = None)
      as -> by (change (<["as" := opt (TElement T)]> (∅ : shape) !! P = None);
                by rewrite lookup_insert_ne, lookup_empty).
    destruct (FieldOwnProps E !! P) as [f|] eqn:Hf.
    + rewrite decide_True; [done|].
      apply elem_of_union_r, elem_of_dom. eauto.
    + rewrite decide_False; [by destruct (ComponentPropsWithRef E T !! P)|].
      apply not_elem_of_dom in Hf. unfold keyof. set_solver.
Qed.


(** ** Native attributes as props *)

Lemma native_all_optional E c : all_optional (native E c).
Proof.
  destruct c; first [apply IntrinsicPropsWithRef_optional
                    |apply IntrinsicProps_optional].
Qed.

Lemma native_own_not_reduced E c K :
  never_reduced [Omit (native E c) K; BoxOwnProps E] = false.
Proof.
  apply not_reduced_all_optional.
  - apply Omit_all_optional, native_all_optional.
  - apply BoxOwnProps_all_optional;
      [apply SpaceProps_optional|apply ColorProps_optional].
Qed.

Lemma Assign_native_lookup E c P :
  Assign (native E c) (BoxOwnProps E) !! P =
  match native E c !! P with
  | Some t =>
      Some (mk_field
              (optional t && from_option optional true (BoxOwnProps E !! P))
              (fty t))
  | None => BoxOwnProps E !! P
  end.
Proof.
  apply Assign_lookup. rewrite <- (Omit_nothing (native E c)).
  apply native_own_not_reduced.
Qed.

Lemma composed_lookup E c P :
  composed E c !! P =
  if decide (P ∈ exclusions c) then BoxOwnProps E !! P
  else Assign (native E c) (BoxOwnProps E) !! P.
Proof.
  unfold composed.
  rewrite (Assign_lookup _ _ P (native_own_not_reduced E c _)).
  rewrite Assign_native_lookup, Omit_lookup. by case_decide.
Qed.

Lemma props_plain_lookup E c P :
  plain_composition c = true →
  props E c !! P =
  match members E c !! P with
  | Some f => Some f
  | None => Assign (native E c) (BoxOwnProps E) !! P
  end.
Proof.
  intros Hc.
  destruct c; try discriminate Hc; clear Hc; cbn [props members native host];
    unfold FlexProps, TextProps, CardProps, BadgeProps, AlertProps,
      DividerProps, ContainerProps, MessageProps, NavLinkProps,
      MenuButtonProps;
    unfold GridProps, AvatarProps, AspectRatioProps, AspectImageProps;
    unfold BoxProps, ButtonProps, LinkProps, ParagraphProps, HeadingProps,
      ImageProps, LabelProps, InputProps, SelectProps, TextareaProps,
      RadioProps, CheckboxProps, SliderProps, ProgressProps, EmbedProps,
      IconButtonProps, SwitchProps;
    rewrite ?interface_extends_lookup, ?interface_extends_empty,
      ?lookup_empty;
    reflexivity.
Qed.

Lemma members_plain_optional E c :
  plain_composition c = true → all_optional (members E c).
Proof.
  intros Hc P f.
  destruct c; try discriminate Hc; clear Hc; cbn [members];
    rewrite ?lookup_empty; try discriminate;
    intros Hf; apply elem_of_list_to_map_2 in Hf;
    repeat (apply elem_of_cons in Hf as [[= -> ->]|Hf]; [done|]);
    by apply elem_of_nil in Hf.
Qed.

Lemma props_composed_lookup E c P :
  composes_native c = true →
  props E c !! P =
  match members E c !! P with
  | Some f => Some f
  | None => composed E c !! P
  end.
Proof.
  intros Hc. destruct (plain_composition c) eqn:Hp.
  - rewrite (props_plain_lookup E c P Hp). unfold composed.
    replace (exclusions c) with (∅ : gset string) by (by destruct c).
    by rewrite Omit_nothing.
  - destruct c; try discriminate Hp; try discriminate Hc.
    + change (props E Donut)
        with (interface_extends [composed E Donut] (members E Donut)).
      apply interface_extends_lookup.
    + change (props E Spinner)
        with (interface_extends [composed E Spinner] (members E Spinner)).
      apply interface_extends_lookup.
Qed.

Lemma members_optional E c : c ≠ Donut → all_optional (members E c).
Proof.
  intros Hc. destruct (plain_composition c) eqn:Hp;
    [by apply members_plain_optional|].
  destruct c; try discriminate Hp; try done; compute_done.
Qed.

Lemma CloseProps_lookup E P :
  CloseProps E !! P =
  if decide (P = "children") then None else IconButtonProps E !! P.
Proof.
  unfold CloseProps. rewrite interface_extends_empty, Omit_lookup.
  destruct (decide (P = "children")) as [->|n].
  - by rewrite decide_True by set_solver.
  - by rewrite decide_False by set_solver.
Qed.


Lemma accepts_required {val} (has_ty : val → ty → bool) (S : shape) v P t :
  accepts has_ty S v → S !! P = Some (req t) →
  ∃ x, v !! P = Some x ∧ has_ty x t = true.
Proof.
  intros [_ H] Hf. specialize (H P _ Hf). cbv beta in H.
  destruct (v !! P) as [x|]; [eauto|discriminate H].
Qed.

Lemma native_accepted_composed E c {val} (has_ty : val → ty → bool) v :
  composes_native c = true → c ≠ Donut →
  members_agree E c → exclusions_widen has_ty E c →
  accepts has_ty (native E c) v → accepts has_ty (props E c) v.
Proof.
  intros Hc HD Hm Hw [Hdom Hv]. unfold accepts, keyof in *.
  pose proof (BoxOwnProps_all_optional E
                (SpaceProps_optional E) (ColorProps_optional E)) as HB.
  pose proof (members_optional E c HD) as Ho.
  assert (∀ P, v !! P = None ∨ ∃ x t, v !! P = Some x ∧
               native E c !! P = Some t ∧ has_ty x (fty t) = true) as Hcase.
  { intros P. destruct (v !! P) as [x|] eqn:Hx; [right|by left].
    assert (P ∈ dom (native E c)) as [t Ht]%elem_of_dom
      by (apply Hdom, elem_of_dom; eauto).
    exists x, t. repeat split; [done|]. specialize (Hv P t Ht).
    cbv beta in Hv. by rewrite Hx in Hv. }
  split.
  - intros P [x Hx]%elem_of_dom. apply elem_of_dom.
    destruct (Hcase P) as [Hn|(x' & t & _ & Ht & _)]; [congruence|].
    rewrite (props_composed_lookup E c P Hc).
    destruct (members E c !! P); [eauto|].
    rewrite composed_lookup. case_decide as He.
    + destruct (Hw P t He Ht) as (u & Hu & _). eauto.
    + rewrite Assign_native_lookup, Ht. eauto.
  - intros P f. rewrite (props_composed_lookup E c P Hc).
    destruct (members E c !! P) as [m|] eqn:HmP.
    + intros [= <-]. destruct (Hm P m HmP) as [Hn|Hn].
      * destruct (Hcase P) as [->|(x & t & _ & Ht & _)]; [|congruence].
        by apply (Ho P).
      * by apply (Hv P m).
    + rewrite composed_lookup. case_decide as He.
      * intros Hf. destruct (Hcase P) as [->|(x & t & -> & Ht & Hx)].
        { by apply (HB P). }
        destruct (Hw P t He Ht) as (u & Hu & Hsub).
        assert (u = f) as -> by congruence. by apply Hsub.
      * rewrite Assign_native_lookup.
        destruct (native E c !! P) as [t|] eqn:Ht.
        { intros [= <-]. simpl. specialize (Hv P t Ht). cbv beta in Hv.
          destruct (v !! P); [done|]. rewrite Hv. simpl.
          destruct (BoxOwnProps E !! P) as [u|] eqn:Hu; [|done].
          by apply (HB P). }
        intros Hu. destruct (Hcase P) as [->|(x & t & _ & Ht' & _)];
          [|congruence].
        by apply (HB P).
Qed.

(** C2, as stated, fails: the empty props object satisfies the native
    attribute sets of [svg] and [input], whose attributes are all optional,
    and is neither a valid [DonutProps], which requires [value], nor valid
    props of [Field], which requires [label] and [name]; a [children] prop,
    valid for [button], is not a prop of [Close]. *)
Lemma Donut_rejects_native_props :
  (accepts Sample.has_ty (native Sample.typings Donut) ∅ ∧
   ¬ accepts Sample.has_ty (props Sample.typings Donut) ∅) ∧
  (accepts Sample.has_ty (native Sample.typings Field) ∅ ∧
   ¬ accepts Sample.has_ty (props Sample.typings Field) ∅) ∧
  (accepts Sample.has_ty (native Sample.typings Close)
     {["children" := Sample.VOpaque "React.ReactNode"]} ∧
   ¬ accepts Sample.has_ty (props Sample.typings Close)
     {["children" := Sample.VOpaque "React.ReactNode"]}).
Proof.
  repeat split; compute_done.
Qed.

(** C2 (amended): for every exported component other than [Donut] and
    [Field], a props object accepted at the native attribute set of the
    host (for [Close]: one that does not supply [children], which [Close]
    omits) is accepted at the component's props shape, provided each
    member the component's interface declares itself is absent from the
    native set or declared there identically and every value of a native
    attribute the component excludes is a value of the own prop of that
    name.  [Donut] and [Field] reject the empty props object. *)
Theorem native_props_accepted E {val} (has_ty : val → ty → bool) :
  (∀ c v,
     c ≠ Donut → c ≠ Field →
     members_agree E c →
     (c = Close → members_agree E IconButton ∧ "children" ∉ dom v) →
     exclusions_widen has_ty E c →
     accepts has_ty (native E c) v → accepts has_ty (props E c) v) ∧
  ¬ accepts has_ty (props E Donut) ∅ ∧
  ¬ accepts has_ty (props E Field) ∅.
Proof.
  split; [|split].
  - intros c v HD HF Hm HC Hw Hv.
    destruct (composes_native c) eqn:Hc;
      [by apply native_accepted_composed|].
    destruct c; try discriminate Hc; [done|].
    destruct (HC eq_refl) as [HmI Hch].
    assert (accepts has_ty (props E IconButton) v) as [Hd Hi].
    { apply native_accepted_composed; try done;
        intros P t HP; by apply not_elem_of_empty in HP. }
    split.
    + intros P HP. specialize (Hd P HP). unfold keyof in *.
      apply elem_of_dom. apply elem_of_dom in Hd.
      cbn [props] in *. rewrite CloseProps_lookup.
      case_decide; [by subst P|done].
    + intros P f. cbn [props]. rewrite CloseProps_lookup.
      case_decide; [done|]. apply Hi.
  - intros H.
    destruct (accepts_required has_ty _ ∅ "value" TNumber H) as (x & Hx & _).
    + by rewrite (props_composed_lookup E Donut "value" eq_refl).
    + by rewrite lookup_empty in Hx.
  - intros H.
    destruct (accepts_required has_ty _ ∅ "label" TString H) as (x & Hx & _).
    + cbn [props]. by rewrite FieldProps_lookup, FieldOwnProps_lookup.
    + by rewrite lookup_empty in Hx.
Qed.

Lemma native_props_accepted_witness :
  accepts Sample.has_ty (props Sample.typings Spinner)
    (list_to_map
       [("color", Sample.VString "tomato");
        ("opacity", Sample.VNumber 1);
        ("viewBox", Sample.VString "0 0 32 32")]).
Proof.
  apply (proj1 (native_props_accepted Sample.typings Sample.has_ty) Spinner).
  - done.
  - done.
  - apply map_Forall_insert_2; [left; by vm_compute|apply map_Forall_empty].
  - done.
  - intros P t HP Ht. unfold exclusions, Spinner_omitted in HP.
    rewrite !elem_of_union, !elem_of_singleton in HP.
    destruct HP as [[[-> | ->] | ->] | ->]; vm_compute in Ht;
      try discriminate Ht; injection Ht as <-;
      (eexists; split; [by vm_compute|]); by intros [].
  - compute_done.
Defined.

(** ** Derived and aliased props *)

(** C10: [CloseProps] is [IconButtonProps] with the [children] field
    removed: every other field, the optional [size] among them, is declared
    as in [IconButtonProps], [children] is not a field of [CloseProps], and a
    props object is accepted by [Close] only if it does not supply
    [children]. *)
Theorem CloseProps_omits_children E :
  keyof (CloseProps E) = keyof (IconButtonProps E) ∖ {["children"]} ∧
  (∀ P, CloseProps E !! P =
        if decide (P = "children") then None else IconButtonProps E !! P) ∧
  IconButtonProps E !! "size" = Some (opt (TUnion TNumber TString)) ∧
  CloseProps E !! "size" = Some (opt (TUnion TNumber TString)) ∧
  CloseProps E !! "children" = None ∧
  (∀ val (has_ty : val → ty → bool) v,
     accepts has_ty (CloseProps E) v → "children" ∉ dom v) ∧
  (∀ val (has_ty : val → ty → bool) v,
     accepts has_ty (IconButtonProps E) v → "children" ∉ dom v →
     accepts has_ty (CloseProps E) v).
Proof.
  assert (keyof (CloseProps E) = keyof (IconButtonProps E) ∖ {["children"]})
    as Hk.
  { unfold keyof. apply set_eq. intros P.
    rewrite elem_of_difference, !elem_of_dom, CloseProps_lookup.
    case_decide.
    - subst P. split; [by intros [? ?]|]. set_solver.
    - set_solver. }
  assert (IconButtonProps E !! "size" = Some (opt (TUnion TNumber TString)))
    as Hs by (unfold IconButtonProps; by rewrite interface_extends_lookup).
  split; [done|].
  split; [apply CloseProps_lookup|].
  split; [done|].
  split; [by rewrite CloseProps_lookup|].
  split; [by rewrite CloseProps_lookup|].
  split.
  - intros val has_ty v [Hd _]. rewrite Hk in Hd. set_solver.
  - intros val has_ty v [Hd Hc] Hn. split.
    + rewrite Hk. set_solver.
    + intros P f. rewrite CloseProps_lookup. case_decide; [done|].
      apply Hc.
Qed.

(** C9: the aliased props types are equal to the types they name, so every
    aliased component has the props shape, and accepts the props objects, of
    its base component. *)
Theorem aliased_props_equal E :
  FlexProps E = BoxProps E ∧ TextProps E = BoxProps E ∧
  CardProps E = BoxProps E ∧ BadgeProps E = BoxProps E ∧
  AlertProps E = BoxProps E ∧ DividerProps E = BoxProps E ∧
  ContainerProps E = BoxProps E ∧ MessageProps E = BoxProps E ∧
  NavLinkProps E = LinkProps E ∧ MenuButtonProps E = IconButtonProps E ∧
  ∀ c base, alias_base c = Some base →
    props E c = props E base ∧
    ∀ val (has_ty : val → ty → bool) v,
      accepts has_ty (props E c) v ↔ accepts has_ty (props E base) v.
Proof.
  do 10 (split; [reflexivity|]).
  intros c base H.
  assert (props E c = props E base) as ->; [|done].
  destruct c; try discriminate H; injection H as <-; reflexivity.
Qed.

(** ** Exclusion lists *)



(** ** The props of [Field] *)

(** C4, as stated, fails: [Field<T>] also accepts the margin props that
    [FieldOwnProps] inherits, which the listed fields do not include. *)
Lemma Field_accepts_margin_props :
  FieldProps Sample.typings (Intrinsic "label") !! "mt" =
    Some (opt (Sample.responsive "CSS.Property.Margin")) ∧
  ComponentPropsWithRef Sample.typings (Intrinsic "label") !! "mt" = None ∧
  FieldProps_as_specified Sample.typings (Intrinsic "label") !! "mt" = None ∧
  FieldProps Sample.typings (Intrinsic "label") ≠
    FieldProps_as_specified Sample.typings (Intrinsic "label").
Proof.
  assert (FieldProps Sample.typings (Intrinsic "label") !! "mt" =
            Some (opt (Sample.responsive "CSS.Property.Margin"))) as H1
    by (by vm_compute).
  assert (FieldProps_as_specified Sample.typings (Intrinsic "label") !! "mt"
            = None) as H2 by (by vm_compute).
  split; [exact H1|]. split; [by vm_compute|]. split; [exact H2|].
  intros H. rewrite H, H2 in H1. discriminate H1.
Qed.

(** C4 (amended): for every element/component type [T], the props of
    [Field<T>] are exactly: a required string [label], a required string
    [name], the margin props that [FieldOwnProps] inherits (as [MarginProps]
    declares them), every prop of [T] except [as], [label], [name] and the
    margin-prop names (each as [T] declares it), and an optional [as] of
    type [T] (intersected with the declaration of [MarginProps], should it
    have one). *)
Theorem FieldProps_fields E T :
  keyof (FieldProps E T) =
    {["label"]} ∪ {["name"]} ∪ {["as"]} ∪ keyof (MarginProps E)
    ∪ keyof (ComponentPropsWithRef E T) ∧
  ∀ P, FieldProps E T !! P =
       if decide (P = "label" ∨ P = "name") then Some (req TString)
       else if decide (P = "as") then
         match MarginProps E !! "as" with
         | Some m => Some (mk_field (optional m) (TInter (fty m) (TElement T)))
         | None => Some (opt (TElement T))
         end
       else match MarginProps E !! P with
            | Some m => Some m
            | None => ComponentPropsWithRef E T !! P
            end.
Proof.
  assert (∀ P, FieldProps E T !! P =
       if decide (P = "label" ∨ P = "name") then Some (req TString)
       else if decide (P = "as") then
         match MarginProps E !! "as" with
         | Some m => Some (mk_field (optional m) (TInter (fty m) (TElement T)))
         | None => Some (opt (TElement T))
         end
       else match MarginProps E !! P with
            | Some m => Some m
            | None => ComponentPropsWithRef E T !! P
            end) as H.
  { intros P. rewrite FieldProps_lookup, FieldOwnProps_lookup.
    destruct (decide (P = "label" ∨ P = "name")) as [[-> | ->]|n]; [done..|].
    done. }
  split; [|exact H].
  unfold keyof. apply set_eq. intros P.
  rewrite !elem_of_union, !elem_of_singleton, !elem_of_dom, H.
  repeat case_decide.
  - split; [tauto|]. eauto.
  - subst P. split; [tauto|]. destruct (MarginProps E !! "as"); eauto.
  - destruct (MarginProps E !! P); [split; eauto|].
    split; [tauto|]. intros [[[[?|?]|?]|[? ?]]|?]; try done; tauto.
Qed.




(** ** Laws of the type operators *)

Lemma Assign_all_optional (T U : shape) :
  all_optional T → all_optional U → all_optional (Assign T U).
Proof.
  intros HT HU P f.
  rewrite (Assign_lookup T U P (not_reduced_all_optional T U HT HU)).
  destruct (T !! P) as [t|] eqn:Ht.
  - intros [= <-]. simpl. rewrite (HT P t Ht). simpl.
    destruct (U !! P) as [u|] eqn:Hu; [|done]. by apply (HU P).
  - apply HU.
Qed.

(** X1: on shapes whose fields are all optional, as every attribute set and
    own-props shape the file composes, [Assign] does not depend on the
    grouping: the leftmost shape that declares a name gives its type. *)
Theorem Assign_assoc (T U V : shape) :
  all_optional T → all_optional U → all_optional V →
  Assign (Assign T U) V = Assign T (Assign U V).
Proof.
  intros HT HU HV.
  pose proof (Assign_all_optional T U HT HU) as HTU.
  pose proof (Assign_all_optional U V HU HV) as HUV.
  apply map_eq. intros P.
  rewrite (Assign_lookup _ V P (not_reduced_all_optional _ V HTU HV)).
  rewrite (Assign_lookup T _ P (not_reduced_all_optional T _ HT HUV)).
  rewrite (Assign_lookup T U P (not_reduced_all_optional T U HT HU)).
  rewrite (Assign_lookup U V P (not_reduced_all_optional U V HU HV)).
  destruct (T !! P) as [t|], (U !! P) as [u|], (V !! P) as [w|]; simpl;
    by rewrite ?andb_assoc, ?andb_true_r.
Qed.

Lemma Assign_assoc_witness :
  Assign (Assign {["color" := opt TString]} {["color" := opt TNumber]})
    {["sx" := opt TAny]} =
  Assign {["color" := opt TString]}
    (Assign {["color" := opt TNumber]} {["sx" := opt TAny]}).
Proof.
  apply (Assign_assoc {["color" := opt TString]} {["color" := opt TNumber]}
           {["sx" := opt TAny]}); compute_done.
Defined.

(** X2: the empty shape is a unit of [Assign] on both sides, and merging a
    shape with itself changes nothing. *)
Theorem Assign_unit_idempotent (T : shape) :
  Assign T ∅ = T ∧ Assign ∅ T = T ∧ Assign T T = T.
Proof.
  assert (never_reduced [T; ∅] = false) as H1.
  { apply not_reduced_optional. intros P t u _ Hu.
    by rewrite lookup_empty in Hu. }
  assert (never_reduced [∅; T] = false) as H2.
  { apply not_reduced_optional. intros P t u Ht _.
    by rewrite lookup_empty in Ht. }
  assert (never_reduced [T; T] = false) as H3.
  { apply not_true_is_false. intros Hr.
    apply never_reduced_pair in Hr as (P & t & u & Ht & Hu & Hn).
    assert (u = t) as -> by congruence.
    by rewrite never_property_diag in Hn. }
  repeat split; apply map_eq; intros P.
  - rewrite (Assign_lookup _ _ P H1), lookup_empty.
    destruct (T !! P) as [[o t]|]; simpl; by rewrite ?andb_true_r.
  - by rewrite (Assign_lookup _ _ P H2), lookup_empty.
  - rewrite (Assign_lookup _ _ P H3).
    destruct (T !! P) as [[o t]|]; simpl; by rewrite ?andb_diag.
Qed.

(** X3: on shapes that share no field name [Assign] is the plain union of
    the two shapes, and the order of its arguments does not matter. *)
Theorem Assign_disjoint (T U : shape) :
  keyof T ## keyof U →
  Assign T U = T ∪ U ∧ Assign U T = Assign T U.
Proof.
  intros Hd.
  assert (∀ P t u, T !! P = Some t → U !! P = Some u → False) as Hno.
  { intros P t u Ht Hu. apply (Hd P); apply elem_of_dom; eauto. }
  assert (never_reduced [T; U] = false) as H1
    by (by apply not_reduced_disjoint).
  assert (never_reduced [U; T] = false) as H2
    by (by apply not_reduced_disjoint).
  split; apply map_eq; intros P;
    rewrite ?(Assign_lookup _ _ P H1), ?(Assign_lookup _ _ P H2),
      ?lookup_union;
    destruct (T !! P) as [[o t]|] eqn:Ht, (U !! P) as [[o' u]|] eqn:Hu;
    simpl; rewrite ?andb_true_r; try done;
    by destruct (Hno P _ _ Ht Hu).
Qed.

Lemma Assign_disjoint_witness :
  Assign {["onClick" := opt TAny]} {["sx" := opt TString]} =
    ({["onClick" := opt TAny]} : shape) ∪ {["sx" := opt TString]} ∧
  Assign {["sx" := opt TString]} {["onClick" := opt TAny]} =
    Assign {["onClick" := opt TAny]} {["sx" := opt TString]}.
Proof.
  apply (Assign_disjoint {["onClick" := opt TAny]} {["sx" := opt TString]}).
  unfold keyof. rewrite !dom_singleton_L. set_solver.
Defined.

(** X4: where [T & U] is not reduced to [never], [Assign] takes the type of
    a shared name from [T] and its modifier from both shapes: the merged
    field is optional only if it is optional in every shape that declares
    it, so a field one side requires stays required. *)
Theorem Assign_optional (T U : shape) P :
  never_reduced [T; U] = false →
  optional <$> Assign T U !! P =
  match T !! P, U !! P with
  | Some t, Some u => Some (optional t && optional u)
  | Some t, None => Some (optional t)
  | None, o => optional <$> o
  end.
Proof.
  intros Hr. rewrite (Assign_lookup T U P Hr).
  destruct (T !! P) as [t|], (U !! P) as [u|]; simpl;
    by rewrite ?andb_true_r.
Qed.

Lemma Assign_optional_witness :
  optional <$> Assign {["name" := opt TString]} {["name" := req TString]}
               !! "name" = Some false.
Proof.
  rewrite (Assign_optional {["name" := opt TString]}
             {["name" := req TString]} "name"); by vm_compute.
Defined.

(** X5: [Omit<T, K>] has the field names of [T] that are not in [K], and
    every field it has is a field of [T], unchanged; it never adds or
    alters a field. *)
Theorem Omit_keys_subshape (T : shape) K :
  keyof (Omit T K) = keyof T ∖ K ∧ Omit T K ⊆ T.
Proof.
  split.
  - unfold keyof. apply set_eq. intros P.
    rewrite elem_of_difference, !elem_of_dom, Omit_lookup.
    case_decide; [|tauto].
    split; [by intros ?%is_Some_None|tauto].
  - apply map_subseteq_spec. intros P f. rewrite Omit_lookup.
    by case_decide.
Qed.

(** X6: omitting in two steps is omitting the union of the two name sets,
    in either order. *)
Theorem Omit_Omit (T : shape) K L :
  Omit (Omit T K) L = Omit T (K ∪ L) ∧
  Omit (Omit T K) L = Omit (Omit T L) K.
Proof.
  split; apply map_eq; intros P; rewrite !Omit_lookup;
    repeat case_decide; try done; set_solver.
Qed.

(** X7: [Omit<T, K>] leaves [T] as it is exactly when [T] declares none of
    the names of [K]; omitting a name the shape does not have is harmless. *)
Theorem Omit_id_iff (T : shape) K :
  Omit T K = T ↔ keyof T ## K.
Proof.
  unfold keyof. split.
  - intros H P HT HK. apply elem_of_dom in HT as [f Hf].
    rewrite <- H, Omit_lookup, decide_True in Hf by done. discriminate Hf.
  - intros Hd. apply map_eq. intros P. rewrite Omit_lookup.
    case_decide as HK; [|done].
    symmetry. apply not_elem_of_dom. intros HT. by apply (Hd P).
Qed.

(** X8: [Pick<T, K>] and [Omit<T, K>] split [T] in two shapes with no field
    name in common. *)
Theorem Pick_Omit_partition (T : shape) K :
  Pick T K ∪ Omit T K = T ∧ Pick T K ##ₘ Omit T K.
Proof.
  split.
  - apply map_eq. intros P. rewrite lookup_union, Pick_lookup, Omit_lookup.
    case_decide; by destruct (T !! P).
  - apply map_disjoint_spec. intros P f g.
    rewrite Pick_lookup, Omit_lookup. by case_decide.
Qed.

(** X9: where [T & U] is not reduced to [never], omitting names from the
    merged shape is merging the two shapes with the names omitted from
    each. *)
Theorem Omit_Assign (T U : shape) K :
  never_reduced [T; U] = false →
  Omit (Assign T U) K = Assign (Omit T K) (Omit U K).
Proof.
  intros Hr.
  assert (never_reduced [Omit T K; Omit U K] = false) as Hr'.
  { apply not_true_is_false. intros H.
    apply never_reduced_pair in H as (P & t & u & Ht & Hu & Hn).
    rewrite Omit_lookup in Ht, Hu. case_decide; [done|].
    assert (never_reduced [T; U] = true) as H'
      by (apply never_reduced_pair; eauto 6).
    congruence. }
  apply map_eq. intros P.
  rewrite Omit_lookup, (Assign_lookup _ _ P Hr), (Assign_lookup _ _ P Hr'),
    !Omit_lookup.
  by case_decide.
Qed.

Lemma Omit_Assign_witness :
  Omit (Assign (list_to_map [("children", opt TAny); ("id", opt TString)])
          {["sx" := opt TAny]}) {["children"]} =
  Assign (Omit (list_to_map [("children", opt TAny); ("id", opt TString)])
            {["children"]})
    (Omit {["sx" := opt TAny]} {["children"]}).
Proof.
  apply (Omit_Assign (list_to_map [("children", opt TAny); ("id", opt TString)])
           {["sx" := opt TAny]} {["children"]}).
  by vm_compute.
Defined.

(** ** What a component accepts *)

(** X10: where [T & U] is not reduced to [never], a props object is
    accepted at [Assign<T, U>] exactly when it supplies only names of [T] or
    [U], conforms to [T], conforms to the fields of [U] that [T] does not
    declare, and supplies every field that [U] requires. *)
Theorem accepts_Assign {val} (has_ty : val → ty → bool) (T U : shape) v :
  never_reduced [T; U] = false →
  accepts has_ty (Assign T U) v ↔
  dom v ⊆ keyof T ∪ keyof U ∧
  conforms has_ty v T ∧
  conforms has_ty v (Omit U (keyof T)) ∧
  (∀ P u, U !! P = Some u → optional u = false → P ∈ dom v).
Proof.
  intros Hnr. unfold accepts. rewrite (Assign_keys T U Hnr). unfold keyof.
  split.
  - intros [Hd Hc]. split; [done|]. split; [|split].
    + intros P t Ht.
      specialize (Hc P (mk_field
        (optional t && from_option optional true (U !! P)) (fty t))).
      rewrite (Assign_lookup T U P Hnr), Ht in Hc. specialize (Hc eq_refl).
      simpl in Hc. destruct (v !! P); [done|].
      by apply andb_true_iff in Hc as [? _].
    + intros P u. rewrite Omit_lookup. case_decide as HT; [done|].
      intros Hu. apply not_elem_of_dom in HT.
      specialize (Hc P u). rewrite (Assign_lookup T U P Hnr), HT in Hc. by apply Hc.
    + intros P u Hu Ho. apply elem_of_dom.
      destruct (v !! P) as [x|] eqn:Hx; [eauto|].
      destruct (T !! P) as [t|] eqn:Ht.
      * specialize (Hc P (mk_field
          (optional t && from_option optional true (U !! P)) (fty t))).
        rewrite (Assign_lookup T U P Hnr), Ht in Hc. specialize (Hc eq_refl).
        simpl in Hc. rewrite Hx, Hu in Hc. simpl in Hc.
        rewrite Ho, andb_false_r in Hc. discriminate Hc.
      * specialize (Hc P u). rewrite (Assign_lookup T U P Hnr), Ht in Hc.
        specialize (Hc Hu). simpl in Hc. rewrite Hx in Hc. congruence.
  - intros (Hd & HT & HU & Hr). split; [done|].
    intros P f. rewrite (Assign_lookup T U P Hnr).
    destruct (T !! P) as [t|] eqn:Ht.
    + intros [= <-]. simpl. specialize (HT P t Ht). cbv beta in HT.
      destruct (v !! P) as [x|] eqn:Hx; [done|].
      rewrite HT. simpl.
      destruct (U !! P) as [u|] eqn:Hu; [|done]. simpl.
      destruct (optional u) eqn:Ho; [done|].
      apply (Hr P u Hu) in Ho. apply elem_of_dom in Ho as [? ?]. congruence.
    + intros Hu. apply (HU P f). rewrite Omit_lookup.
      rewrite decide_False; [done|]. by apply not_elem_of_dom.
Qed.

Lemma accepts_Assign_witness :
  accepts Sample.has_ty
    (Assign {["id" := opt TString]} {["value" := req TNumber]})
    {["value" := Sample.VNumber 3]} ↔
  dom ({["value" := Sample.VNumber 3]} : gmap string Sample.jsval)
    ⊆ keyof ({["id" := opt TString]} : shape)
      ∪ keyof ({["value" := req TNumber]} : shape) ∧
  conforms Sample.has_ty {["value" := Sample.VNumber 3]}
    ({["id" := opt TString]} : shape) ∧
  conforms Sample.has_ty {["value" := Sample.VNumber 3]}
    (Omit {["value" := req TNumber]} (keyof ({["id" := opt TString]} : shape))) ∧
  (∀ P u, ({["value" := req TNumber]} : shape) !! P = Some u →
          optional u = false →
          P ∈ dom ({["value" := Sample.VNumber 3]} : gmap string Sample.jsval)).
Proof.
  apply (accepts_Assign Sample.has_ty {["id" := opt TString]}
           {["value" := req TNumber]}).
  by vm_compute.
Defined.

(** X11: the props a component accepts can be handed on to its host
    element.  For every component but [Close] and [Field], an accepted props
    object conforms to each native attribute that the component neither
    excludes nor declares itself: where it supplies the attribute, the value
    has the native type, and it supplies every attribute the host
    requires. *)
Theorem props_conform_to_host
    E c {val} (has_ty : val → ty → bool) v :
  composes_native c = true →
  accepts has_ty (props E c) v →
  conforms has_ty v
    (Omit (native E c) (exclusions c ∪ keyof (members E c))).
Proof.
  intros Hc [_ Hv] P t. rewrite Omit_lookup.
  case_decide as HP; [done|]. intros Ht.
  assert (members E c !! P = None) as Hm.
  { apply not_elem_of_dom. unfold keyof in HP. set_solver. }
  specialize (Hv P (mk_field
    (optional t && from_option optional true (BoxOwnProps E !! P)) (fty t))).
  rewrite (props_composed_lookup E c P Hc), Hm, composed_lookup in Hv.
  rewrite decide_False, Assign_native_lookup, Ht in Hv by set_solver.
  specialize (Hv eq_refl). simpl in Hv.
  destruct (v !! P); [done|]. by apply andb_true_iff in Hv as [? _].
Qed.

Lemma props_conform_to_host_witness :
  conforms Sample.has_ty
    (list_to_map
       [("value", Sample.VNumber 3); ("viewBox", Sample.VString "0 0 32 32");
        ("color", Sample.VOpaque "ResponsiveValue")])
    (Omit (native Sample.typings Donut)
       (exclusions Donut ∪ keyof (members Sample.typings Donut))).
Proof.
  apply (props_conform_to_host Sample.typings Donut Sample.has_ty).
  - reflexivity.
  - compute_done.
Defined.

(** X12: whatever element or component type [T] is chosen, [Field<T>]
    accepts a props object only if it supplies [label] and [name], both as
    strings; a [label] or [name] prop of [T] itself is overridden. *)
Theorem Field_requires_label_name
    E T {val} (has_ty : val → ty → bool) v :
  accepts has_ty (FieldProps E T) v →
  (∃ l, v !! "label" = Some l ∧ has_ty l TString = true) ∧
  (∃ n, v !! "name" = Some n ∧ has_ty n TString = true).
Proof.
  intros H. split; apply (accepts_required has_ty _ v _ _ H);
    by rewrite FieldProps_lookup, FieldOwnProps_lookup.
Qed.

Lemma Field_requires_label_name_witness :
  (∃ l, (list_to_map
           [("label", Sample.VString "Email");
            ("name", Sample.VString "email");
            ("type", Sample.VString "email");
            ("mt", Sample.VOpaque "ResponsiveValue")]
         : gmap string Sample.jsval) !! "label" = Some l ∧
        Sample.has_ty l TString = true) ∧
  (∃ n, (list_to_map
           [("label", Sample.VString "Email");
            ("name", Sample.VString "email");
            ("type", Sample.VString "email");
            ("mt", Sample.VOpaque "ResponsiveValue")]
         : gmap string Sample.jsval) !! "name" = Some n ∧
        Sample.has_ty n TString = true).
Proof.
  apply (Field_requires_label_name Sample.typings (Intrinsic "input")
           Sample.has_ty).
  compute_done.
Defined.

(** X13: [Donut] accepts a props object only if it supplies [value], as a
    number. *)
Theorem Donut_requires_value E {val} (has_ty : val → ty → bool) v :
  accepts has_ty (props E Donut) v →
  ∃ x, v !! "value" = Some x ∧ has_ty x TNumber = true.
Proof.
  intros H. apply (accepts_required has_ty _ v _ _ H).
  by rewrite (props_composed_lookup E Donut "value" eq_refl).
Qed.

Lemma Donut_requires_value_witness :
  ∃ x, (list_to_map [("value", Sample.VNumber 3); ("max", Sample.VNumber 10)]
        : gmap string Sample.jsval) !! "value" = Some x ∧
       Sample.has_ty x TNumber = true.
Proof.
  apply (Donut_requires_value Sample.typings Sample.has_ty).
  compute_done.
Defined.

(** X14: every exported component accepts the names [as], [variant], [css]
    and [sx]: they are field names of the props shape of each component of
    the registry. *)
Theorem own_prop_names_accepted E c :
  ({["as"]} ∪ {["variant"]} ∪ {["css"]} ∪ {["sx"]} : gset string)
    ⊆ keyof (props E c).
Proof.
  intros P HP. apply elem_of_dom.
  assert (P ≠ "children" ∧ P ≠ "label" ∧ P ≠ "name" ∧
          is_Some (BoxOwnProps E !! P)) as (Hch & Hl & Hn & HB).
  { rewrite !elem_of_union, !elem_of_singleton in HP.
    rewrite BoxOwnProps_lookup.
    destruct HP as [[[-> | ->] | ->] | ->]; repeat split; eauto; done. }
  assert (∀ c', composes_native c' = true → is_Some (props E c' !! P)) as Hc.
  { intros c' Hc'. rewrite (props_composed_lookup E c' P Hc').
    destruct (members E c' !! P); [eauto|].
    rewrite composed_lookup. case_decide; [done|].
    rewrite Assign_native_lookup. destruct (native E c' !! P); [eauto|done]. }
  destruct (composes_native c) eqn:Hcn; [by apply Hc|].
  destruct c; try discriminate Hcn.
  - cbn [props]. rewrite FieldProps_lookup, FieldOwnProps_lookup.
    case_decide; [destruct (MarginProps E !! "as"); eauto|].
    rewrite decide_False by naive_solver.
    destruct (MarginProps E !! P); [eauto|].
    apply (Hc Input eq_refl).
  - cbn [props]. rewrite CloseProps_lookup, decide_False by done.
    apply (Hc IconButton eq_refl).
Qed.

(** X15: a props interface that extends the props interface of another
    component ([Grid] and [AspectRatio] extend [Box], [Avatar] and
    [AspectImage] extend [Image]) is a subtype of it and adds only optional
    members: provided the added members are not names of the base, a props
    object that conforms to the extending interface conforms to the base,
    and a props object accepted at the base is accepted at the extending
    interface. *)
Theorem extended_interface_subtype
    E c base {val} (has_ty : val → ty → bool) v :
  extended_interface c = Some base →
  keyof (members E c) ## keyof (props E base) →
  (conforms has_ty v (props E c) → conforms has_ty v (props E base)) ∧
  (accepts has_ty (props E base) v → accepts has_ty (props E c) v).
Proof.
  intros Hb Hd. unfold accepts, keyof in *.
  assert (∀ P, props E c !! P =
               match members E c !! P with
               | Some f => Some f
               | None => props E base !! P
               end) as Hl.
  { intros P. destruct c; try discriminate Hb; injection Hb as <-;
      apply interface_extends_lookup. }
  assert (all_optional (members E c)) as Ho.
  { apply members_plain_optional. by destruct c. }
  assert (∀ P b, props E base !! P = Some b → members E c !! P = None)
    as Hnone.
  { intros P b HP. apply not_elem_of_dom. intros Hm.
    apply (Hd P); [done|]. apply elem_of_dom. eauto. }
  split.
  - intros Hc P b HP. apply (Hc P b). by rewrite Hl, (Hnone P b HP).
  - intros [Hdom Hc]. split.
    + intros P HP. apply Hdom in HP. apply elem_of_dom in HP as [b HP].
      apply elem_of_dom. rewrite Hl, (Hnone P b HP). eauto.
    + intros P f. rewrite Hl.
      destruct (members E c !! P) as [m|] eqn:Hm.
      * intros [= <-].
        assert (v !! P = None) as ->.
        { apply not_elem_of_dom. intros HP. apply Hdom in HP.
          apply (Hd P); [|done]. apply elem_of_dom. eauto. }
        by apply (Ho P).
      * apply Hc.
Qed.

Lemma extended_interface_subtype_witness :
  accepts Sample.has_ty (props Sample.typings Avatar)
    (list_to_map
       [("src", Sample.VString "avatar.png"); ("alt", Sample.VString "me")]).
Proof.
  apply (extended_interface_subtype Sample.typings Avatar Image Sample.has_ty).
  - reflexivity.
  - compute_done.
  - compute_done.
Defined.

(** X16: an intersection of two shapes that share no field name is the
    object type with the fields of both.  The three constituents of
    [FieldProps<T>] share none once [MarginProps] declares no [as]: the
    props of [Field<T>] are then the union of [FieldOwnProps], the remaining
    props of [T] and [as], and no field gets an intersection type. *)
Theorem intersect_disjoint_union E T :
  (∀ A B : shape, keyof A ## keyof B → intersect A B = Object (A ∪ B)) ∧
  ("as" ∉ keyof (MarginProps E) →
   FieldProps E T =
   FieldOwnProps E
   ∪ Omit (ComponentPropsWithRef E T) ({["as"]} ∪ keyof (FieldOwnProps E))
   ∪ {["as" := opt (TElement T)]}).
Proof.
  split.
  - intros A B Hd. unfold intersect, intersection.
    rewrite (not_reduced_disjoint A B Hd). f_equal.
    apply map_eq. intros P.
    rewrite intersection_members_pair, lookup_union.
    destruct (A !! P) as [a|] eqn:Ha, (B !! P) as [b|] eqn:Hb; try done.
    destruct (Hd P); apply elem_of_dom; eauto.
  - intros Has. unfold keyof in Has. apply not_elem_of_dom in Has.
    apply map_eq. intros P.
    rewrite FieldProps_lookup, !lookup_union, Omit_lookup.
    destruct (decide (P = "as")) as [->|n].
    + rewrite Has, FieldOwnProps_lookup, decide_False by naive_solver.
      rewrite Has, decide_True by set_solver.
      by rewrite lookup_singleton_eq.
    + rewrite lookup_singleton_ne by done.
      destruct (FieldOwnProps E !! P) as [f|] eqn:Hf.
      * rewrite decide_True; [done|].
        apply elem_of_union_r, elem_of_dom. eauto.
      * rewrite decide_False;
          [by destruct (ComponentPropsWithRef E T !! P)|].
        apply not_elem_of_dom in Hf. unfold keyof. set_solver.
Qed.

Lemma intersect_disjoint_union_witness :
  FieldProps Sample.typings Sample.CustomComponent =
  FieldOwnProps Sample.typings
  ∪ Omit (ComponentPropsWithRef Sample.typings Sample.CustomComponent)
      ({["as"]} ∪ keyof (FieldOwnProps Sample.typings))
  ∪ {["as" := opt (TElement Sample.CustomComponent)]}.
Proof.
  apply (proj2 (intersect_disjoint_union
                  Sample.typings Sample.CustomComponent)).
  compute_done.
Defined.
